(** * docx-extractor: extraction of a content sequence and header correction

    A shallow embedding of [extraction.py] and [correction.py].

    - A content item is a Python [dict] with string keys; it is a
      [gmap string value], so that reading a missing key, adding a key and
      dictionary equality are the map's own.
    - Exceptions are explicit: a function that can raise returns a [result].
    - The [docx] and [xml.etree] object models are input data: a document is
      the tree the traversal sees (child elements, runs, rows, cells,
      relationships), not a file. *)

From stdpp Require Import gmap strings list fin_maps.
From Stdlib Require Import ZArith Ascii.

Open Scope string_scope.
Open Scope list_scope.
Open Scope nat_scope.

(** ** Exceptions and results *)

(** The exceptions the modelled code raises; all derive from [Exception]. *)
Inductive exn : Type :=
  | KeyError (key : string)
  | IndexError
  | ParseError
  | PackageNotFoundError.

Inductive result (A : Type) : Type :=
  | Ok (a : A)
  | Raise (e : exn).
Arguments Ok {A} a.
Arguments Raise {A} e.

#[global] Instance result_ret : MRet result := λ A a, Ok a.
#[global] Instance result_bind : MBind result := λ A B k r,
  match r with
  | Ok a => k a
  | Raise e => Raise e
  end.

(** A [for] loop whose body may raise: the state is threaded through the
    iterations, and the first exception ends the loop. *)
Section loops.
Context {S X Y : Type}.
Variable body : S → X → result S.
Variable f : X → result Y.

Fixpoint for_each (xs : list X) (s : S) : result S :=
  match xs with
  | [] => Ok s
  | x :: xs' => s' ← body s x; for_each xs' s'
  end.

(** A loop that appends one value per iteration, the value coming from a
    call that may raise. *)
Fixpoint map_r (xs : list X) : result (list Y) :=
  match xs with
  | [] => Ok []
  | x :: xs' => y ← f x; ys ← map_r xs'; Ok (y :: ys)
  end.
End loops.

(** ** Python strings *)

(** A character is a code point below 256.  [str.isspace] holds there for
    U+0009..U+000D, U+001C..U+0020, U+0085 and U+00A0. *)
Definition isspace (c : ascii) : bool :=
  let n := nat_of_ascii c in
  ((9 <=? n) && (n <=? 13)) || ((28 <=? n) && (n <=? 32))
  || (n =? 133) || (n =? 160).

Fixpoint lstrip (s : string) : string :=
  match s with
  | EmptyString => EmptyString
  | String c s' => if isspace c then lstrip s' else s
  end.

Fixpoint rstrip (s : string) : string :=
  match s with
  | EmptyString => EmptyString
  | String c s' =>
      match rstrip s' with
      | EmptyString => if isspace c then EmptyString else String c EmptyString
      | t => String c t
      end
  end.

(** [s.strip()] *)
Definition strip (s : string) : string := rstrip (lstrip s).

(** [sep.join(parts)] *)
Fixpoint join (sep : string) (parts : list string) : string :=
  match parts with
  | [] => ""
  | [p] => p
  | p :: ps => p +:+ sep +:+ join sep ps
  end.

(** [s.endswith(suffix)] *)
Definition endswith (s suffix : string) : bool :=
  let n := String.length s in
  let k := String.length suffix in
  (k <=? n) && String.eqb (String.substring (n - k) k s) suffix.

(** [sub in s] *)
Fixpoint contains (sub s : string) : bool :=
  String.prefix sub s ||
  match s with
  | EmptyString => false
  | String _ s' => contains sub s'
  end.

(** Truthiness of a string: [if s:] *)
Definition truthy (s : string) : bool :=
  match s with
  | EmptyString => false
  | String _ _ => true
  end.

(** ** Content items *)

(** What a table cell holds.  [extract_content_from_cell] builds a cell as a
    list of one-key dictionaries, [{"text": s}] or [{"table": t}]; the two
    shapes are the two constructors, and nesting is the table's. *)
#[warnings="-register-all"]
Inductive cell_item : Type :=
  | CText (text : string)
  | CTable (table : list (list (list cell_item))).

(** A cell is a list of cell items, a row a list of cells, and the data of a
    table a list of rows. *)
Abbreviation cell_data := (list cell_item).
Abbreviation row_data := (list (list cell_item)).
Abbreviation table_data := (list (list (list cell_item))).

(** The values stored under the keys of a top-level item. *)
Inductive value : Type :=
  | VStr (s : string)
  | VBool (b : bool)
  | VTable (t : table_data).

(** A top-level content item: a dictionary from key to value. *)
Abbreviation item := (gmap string value).

(** *** Decidable equality of cell items ([==] on cells) *)

Section list_eqb.
Context {A : Type}.
Variable eqb : A → A → bool.

Fixpoint list_eqb (l k : list A) : bool :=
  match l, k with
  | [], [] => true
  | x :: l', y :: k' => eqb x y && list_eqb l' k'
  | _, _ => false
  end.
End list_eqb.

Fixpoint cell_item_eqb (a b : cell_item) : bool :=
  match a, b with
  | CText s, CText t => String.eqb s t
  | CTable x, CTable y => list_eqb (list_eqb (list_eqb cell_item_eqb)) x y
  | _, _ => false
  end.

Section Forall_fix.
Context {A : Type} (P : A → Prop).
Variable all : ∀ x, P x.

Fixpoint Forall_fix (l : list A) : Forall P l :=
  match l with
  | [] => @List.Forall_nil A P
  | x :: l' => @List.Forall_cons A P x l' (all x) (Forall_fix l')
  end.
End Forall_fix.

(** Induction on a cell item with the hypothesis on every item of a nested
    table. *)
Section cell_item_nested_ind.
Variable P : cell_item → Prop.
Hypothesis text_case : ∀ s, P (CText s).
Hypothesis table_case : ∀ t, Forall (Forall (Forall P)) t → P (CTable t).

Fixpoint cell_item_nested_ind (c : cell_item) : P c :=
  match c with
  | CText s => text_case s
  | CTable t =>
      table_case t
        (Forall_fix _ (Forall_fix _ (Forall_fix _ cell_item_nested_ind)) t)
  end.
End cell_item_nested_ind.

Lemma list_eqb_spec {A : Type} (eqb : A → A → bool) (l : list A) :
  Forall (λ x, ∀ y, eqb x y = true ↔ x = y) l →
  ∀ k, list_eqb eqb l k = true ↔ l = k.
Proof.
  induction 1 as [|x l Hx _ IH]; intros [|y k]; simpl; try (split; congruence).
  rewrite andb_true_iff, Hx, IH. split; [intros [-> ->] | inversion 1]; done.
Qed.

Lemma cell_item_eqb_spec (a b : cell_item) : cell_item_eqb a b = true ↔ a = b.
Proof.
  revert b. induction a as [s | t IH] using cell_item_nested_ind; intros [s' | t'];
    simpl; try (split; congruence).
  - rewrite String.eqb_eq. split; congruence.
  - transitivity (t = t'); [| split; congruence].
    apply list_eqb_spec.
    eapply Forall_impl; [exact IH |]. intros row Hrow. apply list_eqb_spec.
    eapply Forall_impl; [exact Hrow |]. intros c Hc. by apply list_eqb_spec.
Qed.

#[global] Instance cell_item_eq_dec : EqDecision cell_item.
Proof.
  refine (λ a b,
    match cell_item_eqb a b as r return cell_item_eqb a b = r → _ with
    | true => λ H, left _
    | false => λ H, right _
    end eq_refl).
  - by apply cell_item_eqb_spec.
  - intros Heq. apply cell_item_eqb_spec in Heq. congruence.
Defined.

#[global] Instance value_eq_dec : EqDecision value.
Proof. solve_decision. Defined.

(** ** The document as the traversal sees it *)

Definition w_ns : string :=
  "http://schemas.openxmlformats.org/wordprocessingml/2006/main".

(** The tag of the element [w:local], as [element.tag] gives it. *)
Definition qn (local : string) : string := "{" +:+ w_ns +:+ "}" +:+ local.

(** A child element of the body, of a header or footer, or of a table cell.
    - [W_p runs]: a paragraph, with [run.text] of each of [paragraph.runs];
    - [W_tbl rows]: a table; [rows] are [table.rows], each row the list
      [row.cells], each cell the child elements of the cell;
    - [Other tag]: any other element, known by its tag only. *)
#[warnings="-register-all"]
Inductive element : Type :=
  | W_p (runs : list string)
  | W_tbl (rows : list (list (list element)))
  | Other (tag : string).

Abbreviation cell := (list element).
Abbreviation table := (list (list (list element))).

Definition tag (e : element) : string :=
  match e with
  | W_p _ => qn "p"
  | W_tbl _ => qn "tbl"
  | Other t => t
  end.

(** [for table in container.tables: if table._element == element: ...; break]
    finds the table whose element is [element]: [container.tables] are the
    [w:tbl] children of the container and [==] on elements is identity, so
    the loop body runs (once) exactly when [element] is a table. *)
Definition find_table (element : element) : option table :=
  match element with
  | W_tbl rows => Some rows
  | _ => None
  end.

(** [[p for p in container.paragraphs if p._element == element][0]]: the list
    is empty, and [[0]] raises, unless [element] is a paragraph. *)
Definition find_paragraph (element : element) : result (list string) :=
  match element with
  | W_p runs => Ok runs
  | _ => Raise IndexError
  end.

(** ** [remove_consecutive_duplicates] *)

Section remove_consecutive_duplicates.
Context {A : Type} `{EqDecision A}.

(** The body of [for i in range(1, len(lst))]; both indices are in range
    there. *)
Definition rcd_body (lst new_lst : list A) (i : nat) : list A :=
  match lst !! i, lst !! (i - 1) with
  | Some cur, Some prev => if decide (cur = prev) then new_lst else new_lst ++ [cur]
  | _, _ => new_lst
  end.

Definition remove_consecutive_duplicates (lst : list A) : list A :=
  match lst with
  | [] => []
  | first :: _ => foldl (rcd_body lst) [first] (seq 1 (length lst - 1))
  end.
End remove_consecutive_duplicates.

(** ** Tables and cells *)

(** The loops of [extract_table], over the function that extracts a cell. *)
Definition extract_rows (extract_cell : cell → result cell_data) (rows : table)
  : result table_data :=
  for_each (λ table_data row,
    row_data ← for_each (λ row_data cell,
                  cell_content_list ← extract_cell cell;
                  Ok (row_data ++ [cell_content_list])) row [];
    let row_data := remove_consecutive_duplicates row_data in
    Ok (table_data ++ [row_data])) rows [].

(** One iteration of the loop of [extract_content_from_cell]. *)
Fixpoint cell_element (element : element) (content_list : cell_data)
  {struct element} : result cell_data :=
  if endswith (tag element) "tbl" then
    match element with
    | W_tbl rows =>
        table_data ← extract_rows
          (λ cell, for_each (λ content_list element,
                               cell_element element content_list) cell []) rows;
        Ok (content_list ++ [CTable table_data])
    | _ => Ok content_list
    end
  else if endswith (tag element) "p" then
    runs ← find_paragraph element;
    let paragraph_text := join "" runs in
    if truthy paragraph_text then
      let paragraph_text := strip paragraph_text in
      if truthy paragraph_text then Ok (content_list ++ [CText paragraph_text])
      else Ok content_list
    else Ok content_list
  else Ok content_list.

Definition extract_content_from_cell (cell : cell) : result cell_data :=
  for_each (λ content_list element, cell_element element content_list) cell [].

Definition extract_table (table : table) : result table_data :=
  extract_rows extract_content_from_cell table.

(** ** The parts of a document *)

(** A section: the child elements of its header and footer containers
    ([section.header._element], [section.footer._element]). *)
Record docx_section : Type := {
  header : list element;
  footer : list element;
}.

(** An [xml.etree] element: tag, [text] ([None] or a string) and children. *)
#[warnings="-register-all"]
Inductive xml : Type :=
  | XElement (xtag : string) (xtext : option string) (xchildren : list xml).

Definition xml_tag (x : xml) : string := let 'XElement t _ _ := x in t.
Definition xml_text (x : xml) : option string := let 'XElement _ t _ := x in t.

(** A relationship of the document part.  The target part is represented by
    what [ET.fromstring] makes of its blob: the root element, or the parse
    error it raises. *)
Record relationship : Type := {
  reltype : string;
  target_part : result xml;
}.

Record document : Type := {
  body : list element;
  sections : list docx_section;
  rels : list relationship;
}.

(** The elements below [x], in document order. *)
Fixpoint descendants (x : xml) : list xml :=
  let 'XElement _ _ children := x in
  flat_map (λ child, child :: descendants child) children.

(** [x.findall('.//w:local', namespaces)] *)
Definition findall (x : xml) (local : string) : list xml :=
  filter (λ e, xml_tag e = qn local) (descendants x).

(** ** Headers and footers *)

(** One iteration of the loop of [process_container]; the state is
    [(local_texts, local_tables)]. *)
Definition process_container_body (location : string)
    (st : list item * list item) (element : element)
  : result (list item * list item) :=
  let '(local_texts, local_tables) := st in
  if endswith (tag element) "tbl" then
    match find_table element with
    | Some table =>
        table_data ← extract_table table;
        Ok (local_texts,
            local_tables ++
              [ {[ "table" := VTable table_data; "location" := VStr location ]} ])
    | None => Ok st
    end
  else if endswith (tag element) "p" then
    runs ← find_paragraph element;
    let paragraph_text := join "" runs in
    if truthy paragraph_text then
      let paragraph_text := strip paragraph_text in
      if truthy paragraph_text then
        Ok (local_texts ++
              [ {[ "text" := VStr paragraph_text; "location" := VStr location ]} ],
            local_tables)
      else Ok st
    else Ok st
  else Ok st.

Definition process_container (container : list element) (location : string)
  : result (list item) :=
  '(local_texts, local_tables) ←
    for_each (process_container_body location) container ([], []);
  Ok (local_texts ++ local_tables).

(** One iteration of [for section in document.sections]; the state is
    [(header_contents, footer_contents)]. *)
Definition sections_body (st : list item * list item) (section : docx_section)
  : result (list item * list item) :=
  let '(header_contents, footer_contents) := st in
  h ← process_container (header section) "header";
  let header_contents := header_contents ++ h in
  f ← process_container (footer section) "footer";
  let footer_contents := footer_contents ++ f in
  Ok (header_contents, footer_contents).

Definition extract_text_from_headers_and_footers (document : document)
  : result (list item) :=
  '(header_contents, footer_contents) ←
    for_each sections_body (sections document) ([], []);
  Ok (header_contents ++ footer_contents).

(** ** Footnotes *)

(** The inner loop of [extract_footnotes_from_xml]: the non-empty texts of
    the [w:t] elements below a footnote. *)
Definition footnote_texts (footnote : xml) : list string :=
  foldl (λ text child,
           match xml_text child with
           | Some s => if truthy s then text ++ [s] else text
           | None => text
           end) [] (findall footnote "t").

Definition extract_footnotes_from_xml (document : document) : result (list item) :=
  let footnotes := [] in
  let footnotes_part :=
    target_part <$> List.find (λ rel, contains "footnotes" (reltype rel))
                              (rels document) in
  match footnotes_part with
  | None => Ok footnotes
  | Some part =>
      root ← part;
      Ok (foldl (λ footnotes footnote,
                   let text := footnote_texts footnote in
                   footnotes ++
                     [ {[ "text" := VStr (strip (join " " text));
                          "type" := VStr "footnote" ]} ])
                footnotes (findall root "footnote"))
  end.

(** ** The document *)

(** One iteration of the loop over [document.element.body]. *)
Definition body_element (content_list : list item) (element : element)
  : result (list item) :=
  if endswith (tag element) "tbl" then
    match find_table element with
    | Some table =>
        table_data ← extract_table table;
        Ok (content_list ++ [ {[ "table" := VTable table_data ]} ])
    | None => Ok content_list
    end
  else if endswith (tag element) "p" then
    runs ← find_paragraph element;
    let paragraph_text := join "" runs in
    if truthy paragraph_text then
      let paragraph_text := strip paragraph_text in
      if truthy paragraph_text then
        Ok (content_list ++
              [ {[ "text" := VStr paragraph_text; "location" := VStr "body" ]} ])
      else Ok content_list
    else Ok content_list
  else Ok content_list.

Definition extract_content_from_document (document : document)
  : result (list item) :=
  content_list ← for_each body_element (body document) [];
  header_footer_texts ← extract_text_from_headers_and_footers document;
  let content_list := content_list ++ header_footer_texts in
  notes_texts ← extract_footnotes_from_xml document;
  Ok (content_list ++ notes_texts).

Section extract_content_from_docx.
(** [Document(file_path)]: opening and parsing the file gives the document
    or raises. *)
Variable Document : string → result document.

(** [try: ... except Exception: return []] *)
Definition extract_content_from_docx (file_path : string) : list item :=
  match document ← Document file_path; extract_content_from_document document with
  | Ok contents => contents
  | Raise _ => []
  end.
End extract_content_from_docx.

(** ** Correction ([correction.py]) *)

(** [item.get('location') == 'header'] *)
Definition is_header (item : item) : Prop :=
  item !! "location" = Some (VStr "header").

(** [sum(1 for item in data if item.get('location') == 'header')] *)
Definition count_headers (data : list item) : Z :=
  foldr Z.add 0%Z ((λ _, 1%Z) <$> filter is_header data).

(** The first [index] of [enumerate(data)] whose item is a header. *)
Definition get_first_header_index (data : list item) : option nat :=
  fst <$> list_find is_header data.

(** One iteration of [for i in range(header_difference)]; the state is
    [(translation, corrected_items)].  [translation[i]] raises [IndexError]
    past the end of the list and [translation[i]['location']] raises
    [KeyError] on an item without that key.  The item is updated in place in
    [translation], and the updated item is the one appended. *)
Definition promote_body (st : list item * list item) (i : nat)
  : result (list item * list item) :=
  let '(translation, corrected_items) := st in
  match translation !! i with
  | None => Raise IndexError
  | Some it =>
      match it !! "location" with
      | None => Raise (KeyError "location")
      | Some location =>
          if decide (location = VStr "body") then
            let it := <["location" := VStr "header"]> it in
            let it := <["modified" := VBool true]> it in
            Ok (<[i := it]> translation, corrected_items ++ [it])
          else Ok st
      end
  end.

Definition correct_headers (origin translation : list item) : result (list item) :=
  let origin_header_count := count_headers origin in
  let translation_header_count := count_headers translation in
  let header_difference := (origin_header_count - translation_header_count)%Z in
  let corrected_items := [] in
  if (header_difference >? 0)%Z then
    '(translation, corrected_items) ←
      for_each promote_body (seq 0 (Z.to_nat header_difference))
               (translation, corrected_items);
    let translation := drop (Z.to_nat header_difference) translation in
    let first_header_index := get_first_header_index translation in
    match first_header_index with
    | Some first_header_index =>
        Ok (take first_header_index translation ++ corrected_items
              ++ drop first_header_index translation)
    | None => Ok (translation ++ corrected_items)
    end
  else Ok translation.

(** ** Notions used by the statements *)

(** [item.get('location') == 'body'] holds, i.e. the loop of
    [correct_headers] promotes the item. *)
Definition is_body (it : item) : Prop :=
  it !! "location" = Some (VStr "body").

(** The item carries a [location] key. *)
Definition has_location (it : item) : Prop := is_Some (it !! "location").

(** A promoted item: [location] reassigned to ["header"], [modified] set. *)
Definition promote (it : item) : item :=
  <["modified" := VBool true]> (<["location" := VStr "header"]> it).

(** The promoted buffer built from a prefix: its body items, promoted, in
    their order. *)
Definition promoted_buffer (leading : list item) : list item :=
  promote <$> filter is_body leading.

(** [result] is [remainder] with [buffer] spliced in immediately before the
    first header of [remainder], or appended when there is none. *)
Definition spliced_before_first_header (remainder buffer result : list item) : Prop :=
  ∃ before after,
    remainder = before ++ after ∧
    result = before ++ buffer ++ after ∧
    Forall (λ it, ¬ is_header it) before ∧
    match after with
    | [] => True
    | it :: _ => is_header it
    end.

(** Text items as the extractor tags them. *)
Definition text_item (text location : string) : item :=
  {[ "text" := VStr text; "location" := VStr location ]}.

(** The translation of the end-to-end example. *)
Definition example_translation : list item :=
  [ text_item "A" "body"; text_item "B" "body"; text_item "C" "body";
    text_item "D" "header" ].

(** Adjacent-duplicate collapsing in the spec's words: each cell is compared
    with the cell immediately before it and dropped when equal. *)
Section collapse.
Context {A : Type} `{EqDecision A}.

Fixpoint collapse_after (prev : A) (l : list A) : list A :=
  match l with
  | [] => []
  | x :: l' =>
      if decide (x = prev) then collapse_after x l'
      else x :: collapse_after x l'
  end.

Definition collapse (l : list A) : list A :=
  match l with
  | [] => []
  | x :: l' => x :: collapse_after x l'
  end.
End collapse.

(** *** Document order *)

(** The items one child element yields, [mk_text] and [mk_table] building
    the item of a paragraph text and of a table's data: a table yields its
    item, a paragraph its item when its trimmed text is not empty. *)
Definition element_items (mk_text : string → item) (mk_table : table_data → item)
    (element : element) : result (list item) :=
  match element with
  | W_tbl rows => table_data ← extract_table rows; Ok [mk_table table_data]
  | W_p runs =>
      let text := strip (join "" runs) in
      if truthy text then Ok [mk_text text] else Ok []
  | Other tag =>
      if endswith tag "tbl" then Ok []
      else if endswith tag "p" then Raise IndexError
      else Ok []
  end.

(** The items of a container in the order of its child elements, paragraphs
    and tables interleaved as the children are. *)
Definition items_in_order (mk_text : string → item) (mk_table : table_data → item)
    (container : list element) : result (list item) :=
  per_child ← map_r (element_items mk_text mk_table) container;
  Ok (concat per_child).

Definition body_table (table_data : table_data) : item :=
  {[ "table" := VTable table_data ]}.
Definition located_table (location : string) (table_data : table_data) : item :=
  {[ "table" := VTable table_data; "location" := VStr location ]}.

Definition is_text (it : item) : Prop := is_Some (it !! "text").
Definition is_table (it : item) : Prop := is_Some (it !! "table").

(** Text items first, then table items, each kind in its order. *)
Definition grouped_by_kind (l : list item) : list item :=
  filter is_text l ++ filter is_table l.

(** The items of a header or footer container: those of its children in
    order, as arranged by [arrange]. *)
Definition container_items (arrange : list item → list item) (location : string)
    (container : list element) (items : list item) : Prop :=
  ∃ in_order,
    items_in_order (λ t, text_item t location) (located_table location) container
      = Ok in_order ∧
    items = arrange in_order.

(** [l] is the sequence of [doc]: body items in body order, then the items of
    every header, then those of every footer, then the footnote items; the
    items of each header and footer are arranged by [arrange]. *)
Definition extraction_order (arrange : list item → list item)
    (doc : document) (l : list item) : Prop :=
  ∃ body_items headers footers notes,
    items_in_order (λ t, text_item t "body") body_table (body doc) = Ok body_items ∧
    Forall2 (λ s h, container_items arrange "header" (header s) h)
            (sections doc) headers ∧
    Forall2 (λ s f, container_items arrange "footer" (footer s) f)
            (sections doc) footers ∧
    extract_footnotes_from_xml doc = Ok notes ∧
    l = body_items ++ concat headers ++ concat footers ++ notes.

(** *** Footnote items *)

(** The shape the claim on footnote items asks for, over the name of the key
    that holds ["footnote"]. *)
Definition footnote_shape (key : string) (it : item) : Prop :=
  it !! key = Some (VStr "footnote") ∧ it !! "location" = None.

(** The item of a footnote entry: its texts joined by a space and trimmed,
    under [text], and ["footnote"] under [type]. *)
Definition footnote_item (footnote : xml) : item :=
  {[ "text" := VStr (strip (join " " (footnote_texts footnote)));
     "type" := VStr "footnote" ]}.

(** A footnote entry without a non-empty text run. *)
Definition no_text_runs (footnote : xml) : Prop :=
  ∀ child, child ∈ findall footnote "t" →
    xml_text child = None ∨ xml_text child = Some "".

(** *** Example documents *)

(** A header whose first child is a table and whose second is a paragraph. *)
Definition header_table_first : document :=
  {| body := [W_p ["Body text"]];
     sections :=
       [ {| header := [W_tbl [[ [W_p ["Logo"]] ]]; W_p ["Title"]];
            footer := [W_p ["Page"]] |} ];
     rels := [] |}.

(** A translation whose body starts with a table and whose header was not
    recognised. *)
Definition table_first : document :=
  {| body := [W_tbl [[ [W_p ["Fund"]]; [W_p ["Class"]] ]]; W_p ["Objectives"]];
     sections := [ {| header := []; footer := [] |} ];
     rels := [] |}.

(** A footnote store as a word processor writes it: a separator entry with
    no text run, and one footnote. *)
Definition footnote_store : xml :=
  XElement (qn "footnotes") None
    [ XElement (qn "footnote") None
        [ XElement (qn "p") None
            [ XElement (qn "r") None [ XElement (qn "separator") None [] ] ] ];
      XElement (qn "footnote") None
        [ XElement (qn "p") None
            [ XElement (qn "r") None [ XElement (qn "t") (Some " See note ") [] ];
              XElement (qn "r") None [ XElement (qn "t") (Some "1.") [] ] ] ] ].

Definition with_footnotes : document :=
  {| body := [W_p ["Text"]];
     sections := [];
     rels :=
       [ {| reltype :=
              "http://schemas.openxmlformats.org/officeDocument/2006/relationships/styles";
            target_part := Raise ParseError |};
         {| reltype :=
              "http://schemas.openxmlformats.org/officeDocument/2006/relationships/footnotes";
            target_part := Ok footnote_store |} ] |}.

(** A body with a foreign element whose tag ends in [p]. *)
Definition foreign_element : document :=
  {| body := [W_p ["Text"]; Other "{urn:example}stamp"];
     sections := [];
     rels := [] |}.

(** *** Further notions *)

(** No element of the list equals the element immediately before it. *)
Section no_adjacent_duplicates.
Context {A : Type}.

Fixpoint distinct_from_previous (prev : A) (l : list A) : Prop :=
  match l with
  | [] => True
  | x :: l' => x ≠ prev ∧ distinct_from_previous x l'
  end.

Definition no_adjacent_duplicates (l : list A) : Prop :=
  match l with
  | [] => True
  | x :: l' => distinct_from_previous x l'
  end.
End no_adjacent_duplicates.

(** Induction on an element with the hypothesis on every child element of
    every cell of a table. *)
Section element_nested_ind.
Variable P : element → Prop.
Hypothesis p_case : ∀ runs, P (W_p runs).
Hypothesis tbl_case : ∀ rows, Forall (Forall (Forall P)) rows → P (W_tbl rows).
Hypothesis other_case : ∀ tag, P (Other tag).

End element_nested_ind.





(** Every text of the cell item, at any depth, is non-empty. *)
Fixpoint texts_non_empty (c : cell_item) : bool :=
  match c with
  | CText text => truthy text
  | CTable table => forallb (forallb (forallb texts_non_empty)) table
  end.

(** An element the traversal passes over: neither a paragraph nor a table,
    and with a tag that ends in [tbl] or does not end in [p]. *)
Definition passed_over (e : element) : bool :=
  match e with
  | Other tag => endswith tag "tbl" || negb (endswith tag "p")
  | _ => false
  end.

(** The two shapes of an item of the body: a text item with a non-empty
    text and [location] ["body"], or a table item with the [table] key
    only. *)
Definition body_item_shape (it : item) : Prop :=
  (∃ text, text ≠ "" ∧ it = text_item text "body") ∨
  (∃ table_data, it = body_table table_data).

(** The two shapes of an item of a header or footer: a text item with a
    non-empty text, or a table item, each with the container's location. *)
Definition located_item_shape (location : string) (it : item) : Prop :=
  (∃ text, text ≠ "" ∧ it = text_item text location) ∨
  (∃ table_data, it = located_table location table_data).

(** The document without the passed-over children of its body, headers and
    footers. *)
Definition without_passed_over (doc : document) : document :=
  {| body := filter (λ e, passed_over e = false) (body doc);
     sections :=
       (λ s, {| header := filter (λ e, passed_over e = false) (header s);
                footer := filter (λ e, passed_over e = false) (footer s) |})
         <$> sections doc;
     rels := rels doc |}.

(** * Properties *)

(** ** The correction engine *)

Lemma count_headers_nonneg (data : list item) : (0 ≤ count_headers data)%Z.
Proof.
  unfold count_headers.
  induction (filter is_header data) as [|x l IH]; [done|].
  rewrite fmap_cons. cbn [foldr]. lia.
Qed.

(** What the promotion loop computes when it completes: the items from
    index [k + n] on are those of the translation, and the buffer has grown
    by the promoted body items of the [n] positions visited. *)
Lemma promote_loop_result (n k : nat) (translation buffer translation' buffer' : list item) :
  for_each promote_body (seq k n) (translation, buffer) = Ok (translation', buffer') →
  drop (k + n) translation' = drop (k + n) translation ∧
  buffer' = buffer ++ promoted_buffer (take n (drop k translation)).
Proof.
  revert k translation buffer.
  induction n as [|n IH]; intros k translation buffer; simpl.
  - intros [= <- <-]. unfold promoted_buffer. simpl. by rewrite app_nil_r.
  - destruct (translation !! k) as [it|] eqn:Hk; simpl; [|done].
    rewrite (drop_S _ _ _ Hk). simpl.
    destruct (it !! "location") as [location|] eqn:Hloc; simpl; [|done].
    destruct (decide (location = VStr "body")) as [->|Hnb]; simpl.
    + intros Hrun. apply IH in Hrun as [Hdrop ->].
      rewrite drop_insert_lt in Hdrop by lia. rewrite drop_insert_lt by lia.
      replace (k + S n) with (S k + n) by lia. split; [done|].
      unfold promoted_buffer. rewrite filter_cons_True by done.
      rewrite fmap_cons, <- app_assoc. done.
    + intros Hrun. apply IH in Hrun as [Hdrop ->].
      replace (k + S n) with (S k + n) by lia. split; [done|].
      unfold promoted_buffer. rewrite filter_cons_False; [done|].
      unfold is_body. rewrite Hloc. congruence.
Qed.

(** The promotion loop completes when the positions it visits exist and
    their items carry a location. *)
Lemma promote_loop_completes (n k : nat) (translation buffer : list item) :
  k + n ≤ length translation →
  Forall has_location (take n (drop k translation)) →
  ∃ st, for_each promote_body (seq k n) (translation, buffer) = Ok st.
Proof.
  revert k translation buffer.
  induction n as [|n IH]; intros k translation buffer Hlen Hloc; simpl; [eauto|].
  destruct (lookup_lt_is_Some_2 translation k) as [it Hk]; [lia|].
  rewrite Hk. simpl. rewrite (drop_S _ _ _ Hk) in Hloc. simpl in Hloc.
  apply Forall_cons in Hloc as [[location Hit] Hrest]. rewrite Hit. simpl.
  destruct (decide (location = VStr "body")); simpl.
  - apply IH.
    + rewrite length_insert. lia.
    + by rewrite drop_insert_lt by lia.
  - apply IH; [lia | done].
Qed.

(** The two ways [correct_headers] places the buffer are the splice before
    the first header. *)
Lemma splice_at_first_header (remainder buffer : list item) :
  spliced_before_first_header remainder buffer
    match get_first_header_index remainder with
    | Some i => take i remainder ++ buffer ++ drop i remainder
    | None => remainder ++ buffer
    end.
Proof.
  unfold get_first_header_index, spliced_before_first_header.
  destruct (list_find is_header remainder) as [[i it]|] eqn:Hfind; simpl.
  - apply list_find_Some in Hfind as (Hi & Hhdr & Hbefore).
    exists (take i remainder), (drop i remainder).
    rewrite take_drop. split_and!; [done | done | |].
    + apply Forall_forall. intros x Hx.
      apply list_elem_of_lookup in Hx as [j Hj].
      pose proof (lookup_lt_Some _ _ _ Hj) as Hlt.
      rewrite length_take in Hlt.
      rewrite lookup_take_lt in Hj by lia. eapply Hbefore; [done | lia].
    + by rewrite (drop_S _ _ _ Hi).
  - apply list_find_None in Hfind.
    exists remainder, []. rewrite !app_nil_r. done.
Qed.

(** C6. When the origin has no more headers than the translation,
    [correct_headers] returns the translation as it is: nothing is
    reordered, removed or relocated and no item is given a [modified] flag.
    Hence a second application to an already corrected sequence [corrected]
    whose header count is balanced against the origin returns [corrected]. *)
Theorem correct_headers_balanced (origin translation : list item) :
  (count_headers origin ≤ count_headers translation)%Z →
  correct_headers origin translation = Ok translation ∧
  ∀ corrected,
    correct_headers origin translation = Ok corrected →
    correct_headers origin corrected = Ok corrected.
Proof.
  intros Hle.
  assert (correct_headers origin translation = Ok translation) as Hid.
  { unfold correct_headers.
    destruct (Z.gtb_spec (count_headers origin - count_headers translation) 0);
      [lia | done]. }
  split; [done|]. intros corrected. rewrite Hid. by intros [= <-].
Qed.

Lemma correct_headers_balanced_witness :
  (count_headers [text_item "H" "header"]
     ≤ count_headers [text_item "A" "body"; text_item "K" "header"])%Z ∧
  correct_headers [text_item "H" "header"]
                  [text_item "A" "body"; text_item "K" "header"]
    = Ok [text_item "A" "body"; text_item "K" "header"].
Proof.
  split; [by vm_compute|].
  refine (proj1 (correct_headers_balanced [text_item "H" "header"]
                   [text_item "A" "body"; text_item "K" "header"] _)).
  by vm_compute.
Defined.

(** C4. The end-to-end example: for an origin with exactly two headers and
    the translation [A(body), B(body), C(body), D(header)], the result is
    [B(body), C(body), A(header, modified), D(header)], with [B], [C] and [D]
    as they were. *)
Theorem correct_headers_example (origin : list item) :
  count_headers origin = 2%Z →
  correct_headers origin example_translation
    = Ok [ text_item "B" "body"; text_item "C" "body";
           {[ "text" := VStr "A"; "location" := VStr "header";
              "modified" := VBool true ]};
           text_item "D" "header" ].
Proof.
  intros Hcount. unfold correct_headers. rewrite Hcount.
  by vm_compute.
Qed.

Lemma correct_headers_example_witness :
  count_headers [text_item "H1" "header"; text_item "H2" "header";
                 text_item "X" "body"] = 2%Z ∧
  correct_headers [text_item "H1" "header"; text_item "H2" "header";
                   text_item "X" "body"] example_translation
    = Ok [ text_item "B" "body"; text_item "C" "body";
           {[ "text" := VStr "A"; "location" := VStr "header";
              "modified" := VBool true ]};
           text_item "D" "header" ].
Proof.
  split; [by vm_compute|].
  apply (correct_headers_example
           [text_item "H1" "header"; text_item "H2" "header"; text_item "X" "body"]).
  by vm_compute.
Defined.

(** The relocation step on the calls that return.  With a positive deficit
    within the translation's length, a result of [correct_headers] is the
    remainder (the translation without its first [deficit] items) with the
    promoted buffer (the body items among those first [deficit] items,
    promoted, in their order) spliced in immediately before the first header
    of the remainder, and appended at its end when the remainder has no
    header.  A result exists whenever the first [deficit] items carry a
    location. *)
Theorem correct_headers_relocation (origin translation : list item) (deficit : nat) :
  Z.of_nat deficit = (count_headers origin - count_headers translation)%Z →
  0 < deficit →
  deficit ≤ length translation →
  let remainder := drop deficit translation in
  let buffer := promoted_buffer (take deficit translation) in
  (∀ result,
     correct_headers origin translation = Ok result →
     spliced_before_first_header remainder buffer result ∧
     (Forall (λ it, ¬ is_header it) remainder → result = remainder ++ buffer)) ∧
  (Forall has_location (take deficit translation) →
   ∃ result, correct_headers origin translation = Ok result).
Proof.
  intros Hdef Hpos Hlen remainder buffer.
  unfold correct_headers. rewrite <- Hdef, Nat2Z.id.
  destruct (Z.gtb_spec (Z.of_nat deficit) 0) as [_|]; [|lia].
  split.
  - intros result.
    destruct (for_each promote_body (seq 0 deficit) (translation, []))
      as [[translation' buffer']|e] eqn:Hloop; simpl; [|done].
    apply promote_loop_result in Hloop as [Hdrop Hbuf].
    simpl in Hdrop, Hbuf. rewrite drop_0 in Hbuf. rewrite Hdrop. subst buffer'.
    fold remainder buffer. intros Hres.
    assert (result =
      match get_first_header_index remainder with
      | Some i => take i remainder ++ buffer ++ drop i remainder
      | None => remainder ++ buffer
      end) as ->.
    { destruct (get_first_header_index remainder); congruence. }
    split; [apply splice_at_first_header|].
    intros Hnone. unfold get_first_header_index.
    apply (list_find_None is_header) in Hnone. by rewrite Hnone.
  - intros Hloc.
    destruct (promote_loop_completes deficit 0 translation []) as [[t' b'] Hrun];
      [simpl; lia | done |].
    rewrite Hrun. simpl.
    destruct (get_first_header_index (drop deficit t')); eauto.
Qed.

Lemma correct_headers_relocation_witness :
  spliced_before_first_header
    (drop 1 example_translation)
    (promoted_buffer (take 1 example_translation))
    [ text_item "B" "body"; text_item "C" "body";
      promote (text_item "A" "body"); text_item "D" "header" ].
Proof.
  refine (proj1 (proj1 (correct_headers_relocation
            [text_item "H1" "header"; text_item "H2" "header"]
            example_translation 1 _ _ _) _ _)).
  - by vm_compute.
  - lia.
  - simpl. lia.
  - by vm_compute.
Defined.

(** The promotion loop raises when it is asked to visit a position past the
    end of the translation. *)
Lemma promote_loop_raises (n k : nat) (translation buffer : list item) :
  length translation < k + n →
  0 < n →
  ∃ e, for_each promote_body (seq k n) (translation, buffer) = Raise e.
Proof.
  revert k translation buffer.
  induction n as [|n IH]; intros k translation buffer Hlen Hn; [lia|]. simpl.
  destruct (translation !! k) as [it|] eqn:Hk; simpl; [|eauto].
  apply lookup_lt_Some in Hk.
  destruct (it !! "location") as [location|]; simpl; [|eauto].
  destruct (decide (location = VStr "body")); simpl.
  - apply IH; [rewrite length_insert|]; lia.
  - apply IH; lia.
Qed.

(** Whenever the deficit exceeds the translation's length, [correct_headers]
    raises. *)
Lemma correct_headers_deficit_past_length (origin translation : list item) :
  (Z.of_nat (length translation)
     < count_headers origin - count_headers translation)%Z →
  ∃ e, correct_headers origin translation = Raise e.
Proof.
  intros Hlt. unfold correct_headers.
  destruct (Z.gtb_spec (count_headers origin - count_headers translation) 0);
    [|lia].
  destruct (promote_loop_raises
              (Z.to_nat (count_headers origin - count_headers translation)) 0
              translation []) as [e He]; [simpl; lia | lia |].
  rewrite He. simpl. eauto.
Qed.

(** C1. [correct_headers] is not total on well-formed sequences: a body
    table item carries no location, and on the extraction of a document
    whose body starts with a table, with an origin that has one header,
    [translation[0]['location']] raises [KeyError]. *)
Theorem correct_headers_raises_without_location :
  extract_content_from_document table_first
    = Ok [ body_table [[ [CText "Fund"]; [CText "Class"] ]];
           text_item "Objectives" "body" ] ∧
  correct_headers [text_item "Title" "header"]
                  [ body_table [[ [CText "Fund"]; [CText "Class"] ]];
                    text_item "Objectives" "body" ]
    = Raise (KeyError "location").
Proof. split; by vm_compute. Qed.

(** C3. When the deficit exceeds the translation's length, [correct_headers]
    does not return: with two headers in the origin and a translation of one
    body item it promotes that item and then raises [IndexError] at
    [translation[1]]; on the empty translation it raises at once. *)
Theorem correct_headers_raises_past_the_end :
  correct_headers [text_item "H1" "header"; text_item "H2" "header"]
                  [text_item "A" "body"]
    = Raise IndexError ∧
  correct_headers [text_item "H1" "header"] [] = Raise IndexError.
Proof. split; by vm_compute. Qed.

(** C5. The relocation does not hold for every translation with a positive
    deficit within its length: with two headers in the origin and the
    translation [{table}, A(body), D(header)] the deficit is 1, the
    remainder is [A(body), D(header)] and the promoted buffer is empty, so
    the sequence the relocation asks for is [A(body), D(header)]; but the
    first item is a body table without a location, and [correct_headers]
    raises [KeyError] at [translation[0]['location']] and returns nothing. *)
Theorem correct_headers_relocation_raises :
  let origin := [text_item "H1" "header"; text_item "H2" "header"] in
  let translation :=
    [ body_table [[ [CText "Fund"] ]]; text_item "A" "body";
      text_item "D" "header" ] in
  (count_headers origin - count_headers translation = 1)%Z ∧
  1 ≤ length translation ∧
  spliced_before_first_header
    (drop 1 translation) (promoted_buffer (take 1 translation))
    [text_item "A" "body"; text_item "D" "header"] ∧
  correct_headers origin translation = Raise (KeyError "location").
Proof.
  split_and!; [by vm_compute | simpl; lia | | by vm_compute].
  exists [text_item "A" "body"], [text_item "D" "header"].
  split_and!; [done | done | |].
  - apply Forall_cons_2; [|apply Forall_nil_2].
    unfold is_header. by vm_compute.
  - unfold is_header. by vm_compute.
Qed.

(** ** Tables *)

Lemma for_each_ext {S X : Type} (body body' : S → X → result S) (xs : list X) (s : S) :
  (∀ s x, body s x = body' s x) →
  for_each body xs s = for_each body' xs s.
Proof.
  intros Hext. revert s. induction xs as [|x xs IH]; intros s; simpl; [done|].
  rewrite Hext. destruct (body' s x); simpl; [apply IH | done].
Qed.

(** A loop that appends one value per iteration builds the list of the
    values. *)
Lemma for_each_append {X Y : Type} (f : X → result Y) (xs : list X) (acc : list Y) :
  for_each (λ acc x, y ← f x; Ok (acc ++ [y])) xs acc
    = ys ← map_r f xs; Ok (acc ++ ys).
Proof.
  revert acc. induction xs as [|x xs IH]; intros acc; simpl.
  - by rewrite app_nil_r.
  - destruct (f x) as [y|e]; simpl; [|done].
    rewrite IH. destruct (map_r f xs); simpl; [|done].
    by rewrite <- app_assoc.
Qed.

Lemma map_r_then {X Y W : Type} (f : X → result Y) (g : Y → W) (xs : list X) :
  map_r (λ x, y ← f x; Ok (g y)) xs
    = ys ← map_r f xs; Ok ((g <$> ys) : list W).
Proof.
  induction xs as [|x xs IH]; simpl; [done|].
  destruct (f x); simpl; [|done]. rewrite IH.
  destruct (map_r f xs); done.
Qed.

(** The index loop of [remove_consecutive_duplicates], started after
    [front ++ [prev]], collapses the rest against [prev]. *)
Lemma rcd_loop {A : Type} `{EqDecision A} (rest front : list A) (prev : A) (acc : list A) :
  foldl (rcd_body (front ++ prev :: rest)) acc
        (seq (S (length front)) (length rest))
    = acc ++ collapse_after prev rest.
Proof.
  revert front prev acc. induction rest as [|x rest IH]; intros front prev acc.
  - simpl. by rewrite app_nil_r.
  - cbn [length seq foldl]. unfold rcd_body at 2.
    replace (S (length front) - 1) with (length front) by lia.
    rewrite (lookup_app_r front) by lia.
    replace (S (length front) - length front) with 1 by lia.
    rewrite list_lookup_middle by done. cbn [lookup list_lookup].
    specialize (IH (front ++ [prev]) x).
    rewrite <- app_assoc, length_app in IH. cbn [app length] in IH.
    replace (length front + 1) with (S (length front)) in IH by lia.
    rewrite IH. cbn [collapse_after].
    destruct (decide (x = prev)); [done|]. by rewrite <- app_assoc.
Qed.

(** [remove_consecutive_duplicates] drops exactly the cells equal to the
    cell immediately before them. *)
Lemma remove_consecutive_duplicates_collapse {A : Type} `{EqDecision A} (lst : list A) :
  remove_consecutive_duplicates lst = collapse lst.
Proof.
  destruct lst as [|x l]; [done|].
  unfold remove_consecutive_duplicates, collapse.
  replace (length (x :: l) - 1) with (length l) by (simpl; lia).
  apply (rcd_loop l [] x [x]).
Qed.

(** The rows of [extract_table] are the collapsed rows of cell contents. *)
Lemma extract_table_rows (table : table) :
  extract_table table
    = rows ← map_r (map_r extract_content_from_cell) table;
      Ok ((remove_consecutive_duplicates <$> rows) : table_data).
Proof.
  unfold extract_table, extract_rows.
  rewrite (for_each_ext _
    (λ acc row,
       y ← (cells ← map_r extract_content_from_cell row;
            Ok (remove_consecutive_duplicates cells));
       Ok (acc ++ [y]))).
  - rewrite for_each_append, map_r_then.
    destruct (map_r (map_r extract_content_from_cell) table); done.
  - intros acc row. rewrite for_each_append.
    destruct (map_r extract_content_from_cell row); done.
Qed.

(** C8. In every row of an extracted table each cell equal to the cell
    immediately before it is dropped, and only those: a row whose cells
    extract to [X, X, Y] yields [X, Y], and a row whose cells extract to
    [X, Y, X] keeps its three cells. *)
Theorem extract_table_adjacent_dedup
    (table : table) (row1 row2 : list cell) (X Y : cell_data) :
  X ≠ Y →
  map_r extract_content_from_cell row1 = Ok [X; X; Y] →
  map_r extract_content_from_cell row2 = Ok [X; Y; X] →
  extract_table table
    = (rows ← map_r (map_r extract_content_from_cell) table;
       Ok ((collapse <$> rows) : table_data)) ∧
  extract_table [row1] = Ok [[X; Y]] ∧
  extract_table [row2] = Ok [[X; Y; X]].
Proof.
  intros Hne Hrow1 Hrow2.
  assert (∀ t, extract_table t
    = (rows ← map_r (map_r extract_content_from_cell) t;
       Ok ((collapse <$> rows) : table_data))) as Hrows.
  { intros t. rewrite extract_table_rows.
    destruct (map_r (map_r extract_content_from_cell) t) as [rows|]; simpl; [|done].
    f_equal. apply list_fmap_ext. intros _ row _.
    apply remove_consecutive_duplicates_collapse. }
  split_and!; [apply Hrows | |].
  - rewrite Hrows. simpl. rewrite Hrow1. simpl.
    rewrite decide_True by done. by rewrite decide_False by done.
  - rewrite Hrows. simpl. rewrite Hrow2. simpl.
    rewrite decide_False by done. by rewrite decide_False by done.
Qed.

Lemma extract_table_adjacent_dedup_witness :
  extract_table [[ [W_p ["a"]]; [W_p ["a"]]; [W_p ["b"]] ]]
    = Ok [[ [CText "a"]; [CText "b"] ]] ∧
  extract_table [[ [W_p ["a"]]; [W_p ["b"]]; [W_p ["a"]] ]]
    = Ok [[ [CText "a"]; [CText "b"]; [CText "a"] ]].
Proof.
  refine (proj2 (extract_table_adjacent_dedup []
            [ [W_p ["a"]]; [W_p ["a"]]; [W_p ["b"]] ]
            [ [W_p ["a"]]; [W_p ["b"]]; [W_p ["a"]] ]
            [CText "a"] [CText "b"] _ _ _)).
  - discriminate.
  - reflexivity.
  - reflexivity.
Defined.

(** ** Failure of an extraction *)

(** C9. When opening the document raises, or the traversal of the opened
    document raises, [extract_content_from_docx] returns the empty
    sequence. *)
Theorem extract_content_from_docx_failure
    (Document : string → result document) (file_path : string) (e : exn) :
  Document file_path = Raise e ∨
  (∃ document, Document file_path = Ok document ∧
               extract_content_from_document document = Raise e) →
  extract_content_from_docx Document file_path = [].
Proof.
  unfold extract_content_from_docx.
  intros [Hopen | (document & Hopen & Htraverse)]; rewrite Hopen; simpl; [done|].
  by rewrite Htraverse.
Qed.

Lemma extract_content_from_docx_failure_witness :
  extract_content_from_docx (λ _, Ok foreign_element) "translation.docx" = [].
Proof.
  apply (extract_content_from_docx_failure (λ _, Ok foreign_element)
           "translation.docx" IndexError).
  right. exists foreign_element. split; reflexivity.
Defined.

(** ** Footnotes *)

Lemma foldl_append_fmap {X Y : Type} (g : X → Y) (xs : list X) (acc : list Y) :
  foldl (λ acc x, acc ++ [g x]) acc xs = acc ++ (g <$> xs).
Proof.
  revert acc. induction xs as [|x xs IH]; intros acc; simpl.
  - by rewrite app_nil_r.
  - rewrite IH. by rewrite <- app_assoc.
Qed.

(** [extract_footnotes_from_xml] yields one item per footnote entry of the
    store, in order; nothing when the document has no footnote part. *)
Lemma extract_footnotes_from_xml_items (document : document) :
  extract_footnotes_from_xml document
    = match List.find (λ rel, contains "footnotes" (reltype rel)) (rels document) with
      | None => Ok []
      | Some rel =>
          root ← target_part rel;
          Ok (footnote_item <$> findall root "footnote")
      end.
Proof.
  unfold extract_footnotes_from_xml.
  destruct (List.find _ (rels document)) as [rel|]; simpl; [|done].
  destruct (target_part rel) as [root|]; simpl; [|done].
  by rewrite (foldl_append_fmap footnote_item).
Qed.

Lemma footnote_item_lookup (footnote : xml) :
  footnote_item footnote !! "type" = Some (VStr "footnote") ∧
  footnote_item footnote !! "location" = None ∧
  footnote_item footnote !! "kind" = None.
Proof. unfold footnote_item. split_and!; by simplify_map_eq. Qed.

Lemma footnote_texts_empty (footnote : xml) :
  no_text_runs footnote → footnote_texts footnote = [].
Proof.
  unfold no_text_runs, footnote_texts. generalize (findall footnote "t").
  intros children Hnone. generalize (@nil string) as acc.
  induction children as [|child children IH]; intros acc; simpl; [done|].
  destruct (Hnone child) as [-> | ->]; [by left | |]; simpl;
    apply IH; intros c Hc; apply Hnone; by right.
Qed.

(** C7. Every footnote item that [extract_footnotes_from_xml] emits carries
    ["footnote"] under the key [type], and carries neither a [location] nor
    a [kind] key. *)
Theorem footnote_items_shape (document : document) (items : list item) :
  extract_footnotes_from_xml document = Ok items →
  Forall (λ it, footnote_shape "type" it ∧ it !! "kind" = None) items.
Proof.
  rewrite extract_footnotes_from_xml_items.
  destruct (List.find _ (rels document)) as [rel|]; simpl.
  - destruct (target_part rel) as [root|]; simpl; [|done].
    intros [= <-]. apply Forall_fmap, Forall_forall. intros footnote _. simpl.
    unfold footnote_shape.
    destruct (footnote_item_lookup footnote) as (Htype & Hloc & Hkind). done.
  - by intros [= <-].
Qed.

Lemma footnote_items_shape_witness :
  Forall (λ it, footnote_shape "type" it ∧ it !! "kind" = None)
    [ {[ "text" := VStr ""; "type" := VStr "footnote" ]};
      {[ "text" := VStr "See note  1."; "type" := VStr "footnote" ]} ].
Proof.
  apply (footnote_items_shape with_footnotes). reflexivity.
Defined.

(** C7 as stated fails: the footnote items of [with_footnotes] have no
    [kind] key. *)
Lemma footnote_items_have_no_kind :
  ¬ ∀ (document : document) (items : list item),
      extract_footnotes_from_xml document = Ok items →
      Forall (footnote_shape "kind") items.
Proof.
  intros Hclaim.
  specialize (Hclaim with_footnotes _ eq_refl).
  apply Forall_cons in Hclaim as [[Hkind _] _].
  vm_compute in Hkind. discriminate.
Qed.

(** C10. A footnote entry without a non-empty text run yields an item whose
    text is the empty string: the footnote items are not filtered on their
    text, and the item is part of the extracted sequence. *)
Theorem footnote_without_text_is_emitted
    (document : document) (rel : relationship) (root footnote : xml) :
  List.find (λ rel, contains "footnotes" (reltype rel)) (rels document) = Some rel →
  target_part rel = Ok root →
  footnote ∈ findall root "footnote" →
  no_text_runs footnote →
  ∃ notes,
    extract_footnotes_from_xml document = Ok notes ∧
    ({[ "text" := VStr ""; "type" := VStr "footnote" ]} : item) ∈ notes ∧
    ∀ contents,
      extract_content_from_document document = Ok contents →
      ({[ "text" := VStr ""; "type" := VStr "footnote" ]} : item) ∈ contents.
Proof.
  intros Hfind Hpart Hin Hnone.
  assert (extract_footnotes_from_xml document
            = Ok (footnote_item <$> findall root "footnote")) as Hnotes.
  { rewrite extract_footnotes_from_xml_items, Hfind. simpl. by rewrite Hpart. }
  assert (({[ "text" := VStr ""; "type" := VStr "footnote" ]} : item)
            ∈ footnote_item <$> findall root "footnote") as Hitem.
  { apply list_elem_of_fmap. exists footnote. split; [|done].
    unfold footnote_item. by rewrite footnote_texts_empty. }
  eexists. split_and!; [exact Hnotes | exact Hitem |].
  intros contents. unfold extract_content_from_document.
  destruct (for_each body_element (body document) []); simpl; [|done].
  destruct (extract_text_from_headers_and_footers document); simpl; [|done].
  rewrite Hnotes. simpl. intros [= <-].
  apply elem_of_app. by right.
Qed.

Lemma footnote_without_text_is_emitted_witness :
  ∃ notes,
    extract_footnotes_from_xml with_footnotes = Ok notes ∧
    ({[ "text" := VStr ""; "type" := VStr "footnote" ]} : item) ∈ notes ∧
    ∀ contents,
      extract_content_from_document with_footnotes = Ok contents →
      ({[ "text" := VStr ""; "type" := VStr "footnote" ]} : item) ∈ contents.
Proof.
  refine (footnote_without_text_is_emitted with_footnotes
            {| reltype :=
                 "http://schemas.openxmlformats.org/officeDocument/2006/relationships/footnotes";
               target_part := Ok footnote_store |}
            footnote_store
            (XElement (qn "footnote") None
               [ XElement (qn "p") None
                   [ XElement (qn "r") None
                       [ XElement (qn "separator") None [] ] ] ])
            _ _ _ _).
  - reflexivity.
  - reflexivity.
  - vm_compute. apply list_elem_of_here.
  - intros child Hchild. vm_compute in Hchild. by apply elem_of_nil in Hchild.
Defined.

(** ** The order of the extracted sequence *)

(** The tags of paragraphs and tables take the branches meant for them. *)
Lemma endswith_tags :
  endswith (qn "tbl") "tbl" = true ∧
  endswith (qn "p") "tbl" = false ∧
  endswith (qn "p") "p" = true.
Proof. by vm_compute. Qed.

Lemma not_truthy (s : string) : truthy s = false → s = "".
Proof. by destruct s. Qed.

(** A loop that appends what each element yields builds the concatenation
    of the yields, in the order of the elements. *)
Lemma for_each_concat {X Y : Type} (step : list Y → X → result (list Y))
    (f : X → result (list Y)) (xs : list X) (acc : list Y) :
  (∀ acc x, step acc x = ys ← f x; Ok (acc ++ ys)) →
  for_each step xs acc = yss ← map_r f xs; Ok (acc ++ concat yss).
Proof.
  intros Hstep. revert acc. induction xs as [|x xs IH]; intros acc; simpl.
  - by rewrite app_nil_r.
  - rewrite Hstep. destruct (f x) as [ys|]; simpl; [|done].
    rewrite IH. destruct (map_r f xs); simpl; [|done].
    by rewrite <- app_assoc.
Qed.

(** One iteration of the body loop appends the items of the element. *)
Lemma body_element_items (content_list : list item) (element : element) :
  body_element content_list element
    = items ← element_items (λ t, text_item t "body") body_table element;
      Ok (content_list ++ items).
Proof.
  unfold body_element. destruct element as [runs | rows | other]; simpl.
  - destruct (truthy (join "" runs)) eqn:Hjoin.
    + destruct (truthy (strip (join "" runs))); simpl; [done|].
      by rewrite app_nil_r.
    + apply not_truthy in Hjoin as ->. simpl. by rewrite app_nil_r.
  - by destruct (extract_table rows).
  - destruct (endswith other "tbl"); simpl; [by rewrite app_nil_r|].
    destruct (endswith other "p"); simpl; [done|]. by rewrite app_nil_r.
Qed.

Lemma text_item_kind (text location : string) :
  is_text (text_item text location) ∧ ¬ is_table (text_item text location).
Proof.
  unfold is_text, is_table, text_item. split.
  - by simplify_map_eq.
  - simplify_map_eq. by intros [? ?].
Qed.

Lemma located_table_kind (location : string) (data : table_data) :
  is_table (located_table location data) ∧ ¬ is_text (located_table location data).
Proof.
  unfold is_text, is_table, located_table. split.
  - by simplify_map_eq.
  - simplify_map_eq. by intros [? ?].
Qed.

(** One iteration of the loop of [process_container] appends the text items
    of the element to the texts and its table items to the tables. *)
Lemma process_container_body_items (location : string)
    (local_texts local_tables : list item) (element : element) :
  process_container_body location (local_texts, local_tables) element
    = items ← element_items (λ t, text_item t location) (located_table location)
                            element;
      Ok (local_texts ++ filter is_text items,
          local_tables ++ filter is_table items).
Proof.
  pose proof (text_item_kind) as Htext.
  pose proof (located_table_kind location) as Htable.
  unfold process_container_body. destruct element as [runs | rows | other]; simpl.
  - destruct (truthy (join "" runs)) eqn:Hjoin.
    + destruct (truthy (strip (join "" runs))); simpl.
      * rewrite filter_cons_True, filter_cons_False by apply Htext.
        by rewrite filter_nil, app_nil_r.
      * by rewrite !filter_nil, !app_nil_r.
    + apply not_truthy in Hjoin as ->. simpl. by rewrite !filter_nil, !app_nil_r.
  - destruct (extract_table rows) as [data|]; simpl; [|done].
    rewrite filter_cons_False, filter_cons_True by apply Htable.
    by rewrite filter_nil, app_nil_r.
  - destruct (endswith other "tbl"); simpl; [by rewrite !filter_nil, !app_nil_r|].
    destruct (endswith other "p"); simpl; [done|].
    by rewrite !filter_nil, !app_nil_r.
Qed.

Lemma process_container_loop (location : string) (container : list element)
    (local_texts local_tables : list item) :
  for_each (process_container_body location) container (local_texts, local_tables)
    = per_child ← map_r (element_items (λ t, text_item t location)
                                       (located_table location)) container;
      Ok (local_texts ++ filter is_text (concat per_child),
          local_tables ++ filter is_table (concat per_child)).
Proof.
  revert local_texts local_tables.
  induction container as [|element container IH]; intros texts tables;
    cbn [for_each map_r].
  - simpl. by rewrite !filter_nil, !app_nil_r.
  - rewrite process_container_body_items.
    destruct (element_items _ _ element) as [items|]; simpl; [|done].
    rewrite IH. destruct (map_r _ container) as [per_child|]; simpl; [|done].
    by rewrite !filter_app, <- !app_assoc.
Qed.

(** [process_container] returns the items of the container's children with
    the text items first and the table items after them. *)
Lemma process_container_grouped (container : list element) (location : string) :
  process_container container location
    = in_order ← items_in_order (λ t, text_item t location)
                                (located_table location) container;
      Ok (grouped_by_kind in_order).
Proof.
  unfold process_container, items_in_order. rewrite process_container_loop.
  destruct (map_r _ container); done.
Qed.

Lemma process_container_items (container : list element) (location : string)
    (items : list item) :
  process_container container location = Ok items
  ↔ container_items grouped_by_kind location container items.
Proof.
  rewrite process_container_grouped. unfold container_items.
  destruct (items_in_order _ _ container) as [in_order|]; simpl.
  - split; [intros [= <-]; eauto | intros (? & [= <-] & ->); done].
  - split; [done | intros (? & ? & _); done].
Qed.

(** The loop over the sections completes exactly when every header and
    every footer is processed, and it accumulates the headers' items and the
    footers' items in two buffers. *)
Lemma sections_loop (sections : list docx_section)
    (header_contents footer_contents header_contents' footer_contents' : list item) :
  for_each sections_body sections (header_contents, footer_contents)
    = Ok (header_contents', footer_contents')
  ↔ ∃ headers footers,
      Forall2 (λ s h, process_container (header s) "header" = Ok h) sections headers ∧
      Forall2 (λ s f, process_container (footer s) "footer" = Ok f) sections footers ∧
      header_contents' = header_contents ++ concat headers ∧
      footer_contents' = footer_contents ++ concat footers.
Proof.
  revert header_contents footer_contents.
  induction sections as [|s sections IH]; intros hc fc; cbn [for_each].
  - split.
    + intros [= <- <-]. exists [], []. simpl. by rewrite !app_nil_r.
    + intros (headers & footers & Hh & Hf & -> & ->).
      apply Forall2_nil_inv_l in Hh as ->. apply Forall2_nil_inv_l in Hf as ->.
      simpl. by rewrite !app_nil_r.
  - change (sections_body (hc, fc) s)
      with (h ← process_container (header s) "header";
            f ← process_container (footer s) "footer";
            Ok (hc ++ h, fc ++ f)).
    split.
    + destruct (process_container (header s) "header") as [h|] eqn:Hh; simpl; [|done].
      destruct (process_container (footer s) "footer") as [f|] eqn:Hf; simpl; [|done].
      intros (headers & footers & Hhs & Hfs & -> & ->)%IH.
      exists (h :: headers), (f :: footers). simpl.
      rewrite <- !app_assoc. split_and!; by try constructor.
    + intros (headers & footers & Hhs & Hfs & -> & ->).
      apply Forall2_cons_inv_l in Hhs as (h & headers' & Hh & Hhs & ->).
      apply Forall2_cons_inv_l in Hfs as (f & footers' & Hf & Hfs & ->).
      rewrite Hh. simpl. rewrite Hf. simpl.
      apply IH. exists headers', footers'. simpl.
      rewrite <- !app_assoc. by split_and!.
Qed.

(** C2. The extracted sequence is the body items in body order, then the
    items of all headers, then the items of all footers, then the footnote
    items; within each header or footer container the text items come
    first, in the order of the child elements, and the table items follow,
    in the order of the child elements.  Extraction returns exactly when
    every part of it does. *)
Theorem extraction_sequence_order (document : document) (contents : list item) :
  extract_content_from_document document = Ok contents
  ↔ extraction_order grouped_by_kind document contents.
Proof.
  unfold extract_content_from_document, extract_text_from_headers_and_footers,
    extraction_order, items_in_order.
  rewrite (for_each_concat _ _ _ _ body_element_items).
  split.
  - destruct (map_r _ (body document)) as [per_child|]; simpl; [|done].
    destruct (for_each sections_body (sections document) ([], []))
      as [[hc fc]|] eqn:Hsections; simpl; [|done].
    destruct (extract_footnotes_from_xml document) as [notes|]; simpl; [|done].
    intros [= <-].
    apply sections_loop in Hsections as (headers & footers & Hh & Hf & -> & ->).
    exists (concat per_child), headers, footers, notes. simpl.
    rewrite <- !app_assoc. split_and!; try done.
    + eapply Forall2_impl; [exact Hh|]. intros s h. apply process_container_items.
    + eapply Forall2_impl; [exact Hf|]. intros s f. apply process_container_items.
  - intros (body_items & headers & footers & notes & Hbody & Hh & Hf & Hnotes & ->).
    destruct (map_r _ (body document)) as [per_child|]; simpl in *; [|done].
    injection Hbody as <-.
    assert (for_each sections_body (sections document) ([], [])
              = Ok ([] ++ concat headers, [] ++ concat footers)) as ->.
    { apply sections_loop. exists headers, footers. split_and!; try done.
      - eapply Forall2_impl; [exact Hh|]. intros s h. apply process_container_items.
      - eapply Forall2_impl; [exact Hf|]. intros s f. apply process_container_items. }
    rewrite Hnotes. simpl. by rewrite <- !app_assoc.
Qed.

(** C2 as stated fails: the header of [header_table_first] has a table
    before a paragraph, and its extraction has the paragraph's item before
    the table's. *)
Lemma header_items_not_in_child_order :
  ¬ ∀ (document : document) (contents : list item),
      extract_content_from_document document = Ok contents →
      extraction_order (λ in_order, in_order) document contents.
Proof.
  intros Hclaim.
  destruct (Hclaim header_table_first _ eq_refl)
    as (body_items & headers & footers & notes & Hbody & Hh & Hf & Hnotes & Heq).
  apply Forall2_cons_inv_l in Hh as (h & headers' & (ho & Hho & ->) & Hh & ->).
  apply Forall2_nil_inv_l in Hh as ->.
  apply Forall2_cons_inv_l in Hf as (f & footers' & (fo & Hfo & ->) & Hf & ->).
  apply Forall2_nil_inv_l in Hf as ->.
  vm_compute in Hbody, Hho, Hfo, Hnotes.
  injection Hbody as <-. injection Hho as <-. injection Hfo as <-.
  injection Hnotes as <-.
  vm_compute in Heq. discriminate.
Qed.


(** * Further properties *)

(** ** Counting and finding headers *)

Lemma count_headers_length (data : list item) :
  count_headers data = Z.of_nat (length (filter is_header data)).
Proof.
  unfold count_headers.
  induction (filter is_header data) as [|x l IH]; [done|].
  rewrite fmap_cons. cbn [foldr length]. lia.
Qed.

Lemma count_headers_app (l k : list item) :
  count_headers (l ++ k) = (count_headers l + count_headers k)%Z.
Proof. rewrite !count_headers_length, filter_app, length_app. lia. Qed.

Lemma count_headers_all (l : list item) :
  Forall is_header l → count_headers l = Z.of_nat (length l).
Proof.
  intros Hall. rewrite count_headers_length. f_equal. f_equal.
  induction Hall as [|x l Hx _ IH]; [done|].
  by rewrite filter_cons_True, IH.
Qed.

Lemma count_headers_none (l : list item) :
  Forall (λ it, ¬ is_header it) l ↔ count_headers l = 0%Z.
Proof.
  rewrite count_headers_length. split.
  - intros Hnone. induction Hnone as [|x l Hx _ IH]; [done|].
    by rewrite filter_cons_False.
  - intros Hzero. induction l as [|x l IH]; [done|].
    destruct (decide (is_header x)) as [Hx|Hx].
    + rewrite filter_cons_True in Hzero by done. simpl in Hzero. lia.
    + rewrite filter_cons_False in Hzero by done. constructor; auto.
Qed.

(** X1. The two readers of the header tag agree: [count_headers] is zero
    exactly when [get_first_header_index] finds nothing, and an index it
    returns is the position of a header with no header before it. *)
Theorem first_header_index_and_count (data : list item) :
  (count_headers data = 0%Z ↔ get_first_header_index data = None) ∧
  ∀ i, get_first_header_index data = Some i →
       (∃ it, data !! i = Some it ∧ is_header it) ∧
       count_headers (take i data) = 0%Z ∧
       (0 < count_headers data)%Z.
Proof.
  unfold get_first_header_index. split.
  - rewrite <- count_headers_none, <- (list_find_None is_header).
    destruct (list_find is_header data); simpl; split; congruence.
  - intros i. destruct (list_find is_header data) as [[j it]|] eqn:Hfind;
      simpl; [|done].
    intros [= ->]. apply list_find_Some in Hfind as (Hi & Hhdr & Hbefore).
    split_and!; [eauto | |].
    + apply count_headers_none, Forall_forall. intros x Hx.
      apply list_elem_of_lookup in Hx as [j Hj].
      pose proof (lookup_lt_Some _ _ _ Hj) as Hlt. rewrite length_take in Hlt.
      rewrite lookup_take_lt in Hj by lia. eapply Hbefore; [done | lia].
    + pose proof (count_headers_nonneg data).
      destruct (decide (count_headers data = 0%Z)) as [Hz|]; [|lia].
      apply count_headers_none in Hz.
      rewrite Forall_forall in Hz. exfalso.
      apply (Hz it); [|done]. apply list_elem_of_lookup. eauto.
Qed.

(** ** When [correct_headers] returns *)

(** The promotion loop completes only if the positions it visits exist and
    their items carry a location. *)
Lemma promote_loop_visits (n k : nat) (translation buffer : list item)
    (st : list item * list item) :
  for_each promote_body (seq k n) (translation, buffer) = Ok st →
  (0 < n → k + n ≤ length translation) ∧
  Forall has_location (take n (drop k translation)).
Proof.
  revert k translation buffer.
  induction n as [|n IH]; intros k translation buffer; simpl.
  - intros _. split; [lia | by rewrite take_0].
  - destruct (translation !! k) as [it|] eqn:Hk; simpl; [|done].
    pose proof (lookup_lt_Some _ _ _ Hk) as Hlt.
    rewrite (drop_S _ _ _ Hk). simpl.
    destruct (it !! "location") as [location|] eqn:Hloc; simpl; [|done].
    assert (has_location it) as Hit by (unfold has_location; rewrite Hloc; eauto).
    destruct (decide (location = VStr "body")); simpl; intros Hrun;
      apply IH in Hrun as [Hlen Hall].
    + rewrite length_insert in Hlen. rewrite drop_insert_lt in Hall by lia.
      split; [|by constructor]. intros _. destruct n; lia.
    + split; [|by constructor]. intros _. destruct n; lia.
Qed.

(** The result of [correct_headers] under a positive deficit. *)
Lemma correct_headers_with_deficit (origin translation result : list item) :
  (0 < count_headers origin - count_headers translation)%Z →
  correct_headers origin translation = Ok result →
  let deficit := Z.to_nat (count_headers origin - count_headers translation) in
  deficit ≤ length translation ∧
  Forall has_location (take deficit translation) ∧
  spliced_before_first_header
    (drop deficit translation) (promoted_buffer (take deficit translation)) result.
Proof.
  intros Hpos. unfold correct_headers.
  destruct (Z.gtb_spec (count_headers origin - count_headers translation) 0);
    [|lia].
  set (deficit := Z.to_nat (count_headers origin - count_headers translation)).
  destruct (for_each promote_body (seq 0 deficit) (translation, []))
    as [[translation' buffer']|] eqn:Hloop; simpl; [|done].
  pose proof (promote_loop_visits _ _ _ _ _ Hloop) as [Hlen Hall].
  apply promote_loop_result in Hloop as [Hdrop Hbuf].
  simpl in Hdrop, Hbuf, Hlen, Hall. rewrite drop_0 in Hbuf, Hall.
  rewrite Hdrop. subst buffer'. intros Hres.
  split_and!; [apply Hlen; lia | done |].
  pose proof (splice_at_first_header (drop deficit translation)
                (promoted_buffer (take deficit translation))) as Hsplice.
  destruct (get_first_header_index (drop deficit translation));
    injection Hres as <-; exact Hsplice.
Qed.

(** X2. [correct_headers] returns a result exactly when the origin has no
    more headers than the translation, or the deficit is within the
    translation's length and each of the first [deficit] items carries a
    [location] key; otherwise it raises. *)
Theorem correct_headers_returns_iff (origin translation : list item) :
  (∃ result, correct_headers origin translation = Ok result)
  ↔ (count_headers origin ≤ count_headers translation)%Z ∨
    ((count_headers origin - count_headers translation
        ≤ Z.of_nat (length translation))%Z ∧
     Forall has_location
       (take (Z.to_nat (count_headers origin - count_headers translation))
             translation)).
Proof.
  split.
  - intros [result Hres].
    destruct (decide (count_headers origin ≤ count_headers translation)%Z);
      [by left | right].
    apply correct_headers_with_deficit in Hres as (Hlen & Hall & _); [|lia].
    split; [lia | done].
  - intros [Hle | [Hlen Hall]].
    + exists translation. unfold correct_headers.
      destruct (Z.gtb_spec (count_headers origin - count_headers translation) 0);
        [lia | done].
    + unfold correct_headers.
      destruct (Z.gtb_spec (count_headers origin - count_headers translation) 0);
        [|eauto].
      destruct (promote_loop_completes
                  (Z.to_nat (count_headers origin - count_headers translation))
                  0 translation []) as [[t' b'] Hrun]; [simpl; lia | done |].
      rewrite Hrun. simpl.
      destruct (get_first_header_index _); eauto.
Qed.

(** The promotion loop raises [KeyError] at the first visited item that has
    no location. *)
Lemma promote_loop_key_error (m n k : nat) (translation buffer : list item) (it : item) :
  m < n →
  Forall has_location (take m (drop k translation)) →
  translation !! (k + m) = Some it →
  it !! "location" = None →
  for_each promote_body (seq k n) (translation, buffer) = Raise (KeyError "location").
Proof.
  revert n k translation buffer.
  induction m as [|m IH]; intros n k translation buffer Hmn Hall Hit Hnone;
    (destruct n as [|n]; [lia|]); simpl.
  - rewrite Nat.add_0_r in Hit. rewrite Hit. simpl. by rewrite Hnone.
  - assert (is_Some (translation !! k)) as [it0 Hk].
    { apply lookup_lt_is_Some. apply lookup_lt_Some in Hit. lia. }
    rewrite Hk. simpl. rewrite (drop_S _ _ _ Hk) in Hall. simpl in Hall.
    apply Forall_cons in Hall as [[location Hloc] Hall]. rewrite Hloc. simpl.
    replace (k + S m) with (S k + m) in Hit by lia.
    destruct (decide (location = VStr "body")); simpl.
    + apply (IH n (S k)); [lia | | | done].
      * by rewrite drop_insert_lt by lia.
      * by rewrite list_lookup_insert_ne by lia.
    + apply (IH n (S k)); [lia | done | done | done].
Qed.

(** The promotion loop raises [IndexError] when every item carries a
    location and it is asked to go past the end. *)
Lemma promote_loop_index_error (n k : nat) (translation buffer : list item) :
  length translation < k + n →
  0 < n →
  Forall has_location (drop k translation) →
  for_each promote_body (seq k n) (translation, buffer) = Raise IndexError.
Proof.
  revert k translation buffer.
  induction n as [|n IH]; intros k translation buffer Hlen Hn Hall; [lia|]. simpl.
  destruct (translation !! k) as [it|] eqn:Hk; simpl; [|done].
  pose proof (lookup_lt_Some _ _ _ Hk) as Hlt.
  rewrite (drop_S _ _ _ Hk) in Hall.
  apply Forall_cons in Hall as [[location Hloc] Hall]. rewrite Hloc. simpl.
  destruct (decide (location = VStr "body")); simpl.
  - apply IH; [rewrite length_insert; lia | lia |].
    by rewrite drop_insert_lt by lia.
  - apply IH; [lia | lia | done].
Qed.

(** X3. Under a positive deficit, if one of the first [deficit] items has no
    [location] key (a body table item, a footnote item) and the items
    before it have one, [correct_headers] raises [KeyError('location')]. *)
Theorem correct_headers_key_error (origin translation : list item) (i : nat) (it : item) :
  (Z.of_nat i < count_headers origin - count_headers translation)%Z →
  translation !! i = Some it →
  it !! "location" = None →
  Forall has_location (take i translation) →
  correct_headers origin translation = Raise (KeyError "location").
Proof.
  intros Hi Hit Hnone Hall. unfold correct_headers.
  destruct (Z.gtb_spec (count_headers origin - count_headers translation) 0);
    [|lia].
  rewrite (promote_loop_key_error i _ 0 translation [] it); [done | lia | done..].
Qed.

Lemma correct_headers_key_error_witness :
  correct_headers [text_item "H1" "header"; text_item "H2" "header"]
                  [text_item "A" "body"; body_table []; text_item "B" "body"]
    = Raise (KeyError "location").
Proof.
  apply (correct_headers_key_error
           [text_item "H1" "header"; text_item "H2" "header"]
           [text_item "A" "body"; body_table []; text_item "B" "body"]
           1 (body_table [])).
  - by vm_compute.
  - reflexivity.
  - by vm_compute.
  - apply Forall_cons_2; [|apply Forall_nil_2].
    exists (VStr "body"). reflexivity.
Defined.

(** X4. When every item of the translation carries a [location] key and the
    deficit exceeds the translation's length, [correct_headers] raises
    [IndexError]; in particular on the empty translation whenever the origin
    has a header. *)
Theorem correct_headers_index_error (origin translation : list item) :
  Forall has_location translation →
  (Z.of_nat (length translation)
     < count_headers origin - count_headers translation)%Z →
  correct_headers origin translation = Raise IndexError.
Proof.
  intros Hall Hlen. unfold correct_headers.
  destruct (Z.gtb_spec (count_headers origin - count_headers translation) 0);
    [|lia].
  rewrite promote_loop_index_error; [done | simpl; lia | lia | done].
Qed.

Lemma correct_headers_index_error_witness :
  correct_headers [text_item "H1" "header"; text_item "H2" "header";
                   text_item "H3" "header"]
                  [text_item "A" "body"; text_item "F" "footer"]
    = Raise IndexError.
Proof.
  apply (correct_headers_index_error
           [text_item "H1" "header"; text_item "H2" "header"; text_item "H3" "header"]
           [text_item "A" "body"; text_item "F" "footer"]).
  - apply Forall_cons_2; [by exists (VStr "body")|].
    apply Forall_cons_2; [by exists (VStr "footer") | apply Forall_nil_2].
  - by vm_compute.
Defined.

(** ** What [correct_headers] keeps, drops and changes *)

Lemma spliced_permutation (remainder buffer result : list item) :
  spliced_before_first_header remainder buffer result →
  result ≡ₚ remainder ++ buffer.
Proof.
  intros (before & after & -> & -> & _). rewrite <- app_assoc.
  apply Permutation_app_head, Permutation_app_comm.
Qed.

Lemma promote_lookup (it : item) :
  promote it !! "location" = Some (VStr "header") ∧
  promote it !! "modified" = Some (VBool true) ∧
  ∀ key, key ≠ "location" → key ≠ "modified" → promote it !! key = it !! key.
Proof.
  unfold promote. split_and!; [by simplify_map_eq.. |].
  intros key Hloc Hmod. by rewrite !lookup_insert_ne.
Qed.

Lemma body_not_header (it : item) : is_body it → ¬ is_header it.
Proof. unfold is_body, is_header. intros ->. done. Qed.

Lemma body_has_location (it : item) : is_body it → has_location it.
Proof. unfold is_body, has_location. intros ->. eauto. Qed.

Lemma promoted_buffer_headers (leading : list item) :
  count_headers (promoted_buffer leading)
    = Z.of_nat (length (filter is_body leading)).
Proof.
  unfold promoted_buffer. rewrite count_headers_all, length_fmap; [done|].
  apply Forall_fmap, Forall_forall. intros it _. apply promote_lookup.
Qed.

Lemma filter_length_all {A : Type} (P : A → Prop) `{∀ x, Decision (P x)} (l : list A) :
  length (filter P l) = length l ↔ Forall P l.
Proof.
  split.
  - intros Hlen. apply Forall_forall. intros x Hx.
    destruct (decide (P x)) as [|Hnot]; [done|].
    pose proof (length_filter_lt P l x Hx Hnot). lia.
  - intros Hall. induction Hall as [|x l Hx _ IH]; [done|].
    rewrite filter_cons_True by done. simpl. by rewrite IH.
Qed.

(** The header count of a corrected translation, by the leading items. *)
Lemma corrected_header_count (origin translation result : list item) :
  (0 < count_headers origin - count_headers translation)%Z →
  correct_headers origin translation = Ok result →
  let deficit := Z.to_nat (count_headers origin - count_headers translation) in
  (count_headers origin - count_headers result
   = Z.of_nat (deficit - length (filter is_body (take deficit translation)))
     + count_headers (take deficit translation))%Z.
Proof.
  intros Hpos Hres deficit.
  apply correct_headers_with_deficit in Hres as (Hlen & _ & Hsplice); [|done].
  fold deficit in Hlen, Hsplice. apply spliced_permutation in Hsplice.
  assert (count_headers result
          = (count_headers (drop deficit translation)
             + count_headers (promoted_buffer (take deficit translation)))%Z) as ->.
  { rewrite <- count_headers_app, !count_headers_length.
    by rewrite Hsplice. }
  rewrite promoted_buffer_headers.
  pose proof (count_headers_app (take deficit translation) (drop deficit translation))
    as Hsplit.
  rewrite take_drop in Hsplit.
  pose proof (length_filter is_body (take deficit translation)) as Hbody.
  rewrite length_take in Hbody. subst deficit. lia.
Qed.

(** X5. Under a positive deficit the result of [correct_headers] is a
    rearrangement of the items after the first [deficit] ones together with
    the promoted body items: a leading item that is not a body item is
    dropped, and the result has [length translation - deficit] items plus
    one per promoted item. *)
Theorem correct_headers_permutation (origin translation result : list item) :
  (0 < count_headers origin - count_headers translation)%Z →
  correct_headers origin translation = Ok result →
  let deficit := Z.to_nat (count_headers origin - count_headers translation) in
  result ≡ₚ drop deficit translation ++ promoted_buffer (take deficit translation) ∧
  length result
    = length translation - deficit
      + length (filter is_body (take deficit translation)) ∧
  length result ≤ length translation.
Proof.
  intros Hpos Hres deficit.
  apply correct_headers_with_deficit in Hres as (Hlen & _ & Hsplice); [|done].
  fold deficit in Hlen, Hsplice. apply spliced_permutation in Hsplice.
  split; [done|].
  rewrite Hsplice, length_app, length_drop. unfold promoted_buffer.
  rewrite length_fmap.
  pose proof (length_filter is_body (take deficit translation)) as Hbody.
  rewrite length_take in Hbody. lia.
Qed.

Lemma correct_headers_permutation_witness :
  length [text_item "B" "body"; promote (text_item "A" "body")] = 3 - 2 + 1.
Proof.
  refine (proj1 (proj2 (correct_headers_permutation
            [text_item "H1" "header"; text_item "H2" "header"]
            [text_item "F" "footer"; text_item "A" "body"; text_item "B" "body"]
            [text_item "B" "body"; promote (text_item "A" "body")] _ _))).
  - by vm_compute.
  - by vm_compute.
Defined.



(** X7. When the deficit is positive and within the translation's length and
    the first [deficit] items are all body items, [correct_headers] returns
    a sequence with the origin's header count, and correcting that sequence
    again against the same origin returns it unchanged. *)
Theorem correct_headers_idempotent (origin translation : list item) :
  let deficit := Z.to_nat (count_headers origin - count_headers translation) in
  (0 < count_headers origin - count_headers translation)%Z →
  deficit ≤ length translation →
  Forall is_body (take deficit translation) →
  ∃ result,
    correct_headers origin translation = Ok result ∧
    count_headers result = count_headers origin ∧
    correct_headers origin result = Ok result.
Proof.
  intros deficit Hpos Hlen Hall.
  assert (∃ result, correct_headers origin translation = Ok result) as [result Hres].
  { unfold correct_headers.
    destruct (Z.gtb_spec (count_headers origin - count_headers translation) 0);
      [|lia].
    destruct (promote_loop_completes deficit 0 translation []) as [[t' b'] Hrun].
    - simpl. lia.
    - rewrite drop_0. eapply Forall_impl; [exact Hall|]. apply body_has_location.
    - fold deficit. rewrite Hrun. simpl.
      destruct (get_first_header_index _); eauto. }
  exists result. split; [done|].
  pose proof (corrected_header_count _ _ _ Hpos Hres) as Hcount.
  cbv zeta in Hcount. fold deficit in Hcount.
  assert (count_headers (take deficit translation) = 0%Z) as Hzero.
  { apply count_headers_none. eapply Forall_impl; [exact Hall|].
    apply body_not_header. }
  apply (filter_length_all is_body) in Hall. rewrite length_take in Hall.
  assert (count_headers result = count_headers origin) as Heq by lia.
  split; [done|]. unfold correct_headers. rewrite Heq.
  destruct (Z.gtb_spec (count_headers origin - count_headers origin) 0);
    [lia | done].
Qed.

Lemma correct_headers_idempotent_witness :
  ∃ result,
    correct_headers [text_item "H1" "header"; text_item "H2" "header"]
                    example_translation = Ok result ∧
    count_headers result
      = count_headers [text_item "H1" "header"; text_item "H2" "header"] ∧
    correct_headers [text_item "H1" "header"; text_item "H2" "header"] result
      = Ok result.
Proof.
  apply (correct_headers_idempotent
           [text_item "H1" "header"; text_item "H2" "header"] example_translation).
  - by vm_compute.
  - vm_compute. lia.
  - apply Forall_cons_2; [reflexivity | apply Forall_nil_2].
Defined.

(** X8. Every item of a result of [correct_headers] is an item of the
    translation as it was, or a body item of the translation with
    [location] set to ["header"], [modified] set to [True] and every other
    key as it was. *)
Theorem correct_headers_items (origin translation result : list item) :
  correct_headers origin translation = Ok result →
  Forall (λ it,
            it ∈ translation ∨
            ∃ it0, it0 ∈ translation ∧ is_body it0 ∧
                   it !! "location" = Some (VStr "header") ∧
                   it !! "modified" = Some (VBool true) ∧
                   ∀ key, key ≠ "location" → key ≠ "modified" →
                          it !! key = it0 !! key)
         result.
Proof.
  intros Hres.
  destruct (decide (0 < count_headers origin - count_headers translation)%Z)
    as [Hpos|Hneg].
  - apply correct_headers_with_deficit in Hres as (_ & _ & Hsplice); [|done].
    apply spliced_permutation in Hsplice. rewrite Hsplice.
    apply Forall_app. split.
    + apply Forall_forall. intros it Hit. left.
      rewrite <- (take_drop (Z.to_nat (count_headers origin - count_headers translation))
                    translation).
      apply elem_of_app. by right.
    + unfold promoted_buffer. apply Forall_fmap, Forall_forall.
      intros it0 [Hbody Hin]%list_elem_of_filter. right. exists it0.
      split; [|split; [done | apply promote_lookup]].
      apply elem_of_take in Hin as (i & Hi & _).
      apply list_elem_of_lookup. eauto.
  - unfold correct_headers in Hres.
    destruct (Z.gtb_spec (count_headers origin - count_headers translation) 0);
      [lia|].
    injection Hres as <-. apply Forall_forall. intros it Hit. by left.
Qed.

Lemma correct_headers_items_witness :
  Forall (λ it,
            it ∈ example_translation ∨
            ∃ it0, it0 ∈ example_translation ∧ is_body it0 ∧
                   it !! "location" = Some (VStr "header") ∧
                   it !! "modified" = Some (VBool true) ∧
                   ∀ key, key ≠ "location" → key ≠ "modified" →
                          it !! key = it0 !! key)
    [ text_item "B" "body"; text_item "C" "body";
      promote (text_item "A" "body"); text_item "D" "header" ].
Proof.
  apply (correct_headers_items
           [text_item "H1" "header"; text_item "H2" "header"] example_translation).
  by vm_compute.
Defined.

(** ** [remove_consecutive_duplicates] on any list *)

Section dedup.
Context {A : Type} `{EqDecision A}.

Lemma collapse_after_distinct (prev : A) (l : list A) :
  distinct_from_previous prev (collapse_after prev l).
Proof.
  revert prev. induction l as [|x l IH]; intros prev; simpl; [done|].
  destruct (decide (x = prev)) as [->|Hne]; [apply IH|]. simpl. auto.
Qed.

Lemma collapse_after_fixed (prev : A) (l : list A) :
  distinct_from_previous prev l → collapse_after prev l = l.
Proof.
  revert prev. induction l as [|x l IH]; intros prev; simpl; [done|].
  intros [Hne Hrest]. rewrite decide_False by done. by rewrite IH.
Qed.

Lemma collapse_after_sublist (prev : A) (l : list A) :
  collapse_after prev l `sublist_of` l.
Proof.
  revert prev. induction l as [|x l IH]; intros prev; simpl; [done|].
  destruct (decide (x = prev)).
  - by apply sublist_cons.
  - by apply sublist_skip.
Qed.

Lemma collapse_after_elem_of (prev x : A) (l : list A) :
  x ∈ l → x = prev ∨ x ∈ collapse_after prev l.
Proof.
  revert prev. induction l as [|y l IH]; intros prev; [by intros ?%elem_of_nil|].
  intros [-> | Hin]%elem_of_cons; simpl.
  - destruct (decide (y = prev)); [by left | right; apply list_elem_of_here].
  - destruct (IH y Hin) as [-> | Hrest].
    + destruct (decide (y = prev)); [by left | right; apply list_elem_of_here].
    + right. destruct (decide (y = prev)); [done | by apply list_elem_of_further].
Qed.

(** X9. The result of [remove_consecutive_duplicates] has no element equal
    to the one before it, and the function returns its argument unchanged
    exactly when the argument has none. *)
Theorem remove_consecutive_duplicates_no_adjacent (lst : list A) :
  no_adjacent_duplicates (remove_consecutive_duplicates lst) ∧
  (remove_consecutive_duplicates lst = lst ↔ no_adjacent_duplicates lst).
Proof.
  rewrite remove_consecutive_duplicates_collapse.
  destruct lst as [|x l]; simpl; [done|].
  split; [apply collapse_after_distinct|]. split.
  - intros [= Heq]. rewrite <- Heq. apply collapse_after_distinct.
  - intros Hd. by rewrite collapse_after_fixed.
Qed.

(** X10. [remove_consecutive_duplicates] is idempotent. *)
Theorem remove_consecutive_duplicates_idempotent (lst : list A) :
  remove_consecutive_duplicates (remove_consecutive_duplicates lst)
    = remove_consecutive_duplicates lst.
Proof.
  rewrite !remove_consecutive_duplicates_collapse.
  destruct lst as [|x l]; simpl; [done|].
  by rewrite collapse_after_fixed by apply collapse_after_distinct.
Qed.

(** X11. [remove_consecutive_duplicates] only removes elements: its result
    is a subsequence of its argument with the same first element and the
    same set of values, and it is empty only for the empty list. *)
Theorem remove_consecutive_duplicates_sublist (lst : list A) :
  remove_consecutive_duplicates lst `sublist_of` lst ∧
  head (remove_consecutive_duplicates lst) = head lst ∧
  (∀ x, x ∈ remove_consecutive_duplicates lst ↔ x ∈ lst) ∧
  (remove_consecutive_duplicates lst = [] ↔ lst = []).
Proof.
  rewrite remove_consecutive_duplicates_collapse.
  destruct lst as [|x l]; simpl; [done|].
  assert (x :: collapse_after x l `sublist_of` x :: l) as Hsub.
  { apply sublist_skip, collapse_after_sublist. }
  split_and!; [done | done | | done].
  intros y. split.
  - intros Hy. by eapply elem_of_sublist.
  - intros [-> | Hin]%elem_of_cons; [apply list_elem_of_here|].
    destruct (collapse_after_elem_of x y l Hin) as [-> | Hy];
      [apply list_elem_of_here | by apply list_elem_of_further].
Qed.
End dedup.

(** ** The shape of an extracted table *)

Lemma map_r_Forall2 {X Y : Type} (f : X → result Y) (xs : list X) (ys : list Y) :
  map_r f xs = Ok ys ↔ Forall2 (λ x y, f x = Ok y) xs ys.
Proof.
  revert ys. induction xs as [|x xs IH]; intros ys; simpl.
  - split; [intros [= <-]; constructor | by intros ->%Forall2_nil_inv_l].
  - split.
    + destruct (f x) as [y|] eqn:Hx; simpl; [|done].
      destruct (map_r f xs) as [ys'|]; simpl; [|done].
      intros [= <-]. constructor; [done | by apply IH].
    + intros (y & ys' & Hx & Hrest & ->)%Forall2_cons_inv_l.
      rewrite Hx. simpl. apply IH in Hrest. by rewrite Hrest.
Qed.

(** X12. An extracted table has one row per row of the table; each row has
    at most as many cells as [row.cells], and it is empty only when the row
    has no cell. *)
Theorem extract_table_shape (table : table) (data : table_data) :
  extract_table table = Ok data →
  length data = length table ∧
  Forall2 (λ row row_data,
             length row_data ≤ length row ∧ (row_data = [] ↔ row = []))
          table data.
Proof.
  rewrite extract_table_rows.
  destruct (map_r (map_r extract_content_from_cell) table) as [rows|] eqn:Hrows;
    simpl; [|done].
  intros [= <-]. apply map_r_Forall2 in Hrows.
  split; [rewrite length_fmap; symmetry; by eapply Forall2_length|].
  apply Forall2_fmap_r. eapply Forall2_impl; [exact Hrows|].
  intros row cells Hcells. simpl in Hcells.
  apply map_r_Forall2, Forall2_length in Hcells.
  unfold compose. rewrite remove_consecutive_duplicates_collapse.
  destruct cells as [|c cells]; destruct row as [|r row]; simpl in *; try done.
  split; [|done].
  pose proof (sublist_length _ _ (collapse_after_sublist c cells)). lia.
Qed.

Lemma extract_table_shape_witness :
  length [[ [CText "a"]; [CText "b"] ]; [ [] ]] = 2.
Proof.
  refine (proj1 (extract_table_shape
            [ [ [W_p ["a"]]; [W_p ["a"]]; [W_p ["b"]] ];
              [ [W_p [" "]]; [] ] ]
            [[ [CText "a"]; [CText "b"] ]; [ [] ]] _)).
  reflexivity.
Defined.

(** ** When the traversal returns *)

Lemma forallb_Forall {X : Type} (g : X → bool) (xs : list X) :
  forallb g xs = true ↔ Forall (λ x, g x = true) xs.
Proof.
  induction xs as [|x xs IH]; simpl; [by split|].
  rewrite andb_true_iff, IH, Forall_cons. done.
Qed.













(** ** The items of an extraction *)

Lemma truthy_non_empty (s : string) : truthy s = true → s ≠ "".
Proof. by destruct s. Qed.

Lemma element_items_shape (mk_text : string → item) (mk_table : table_data → item)
    (element : element) (items : list item) :
  element_items mk_text mk_table element = Ok items →
  Forall (λ it, (∃ text, text ≠ "" ∧ it = mk_text text) ∨
                (∃ table_data, it = mk_table table_data)) items.
Proof.
  destruct element as [runs | rows | other]; simpl.
  - destruct (truthy (strip (join "" runs))) eqn:Htext; intros [= <-]; [|done].
    apply Forall_cons_2; [|done]. left. eauto using truthy_non_empty.
  - destruct (extract_table rows) as [data|]; simpl; [|done].
    intros [= <-]. apply Forall_cons_2; [|done]. right. eauto.
  - destruct (endswith other "tbl"); [by intros [= <-]|].
    destruct (endswith other "p"); [done | by intros [= <-]].
Qed.

Lemma items_in_order_shape (mk_text : string → item) (mk_table : table_data → item)
    (container : list element) (items : list item) :
  items_in_order mk_text mk_table container = Ok items →
  Forall (λ it, (∃ text, text ≠ "" ∧ it = mk_text text) ∨
                (∃ table_data, it = mk_table table_data)) items.
Proof.
  unfold items_in_order.
  destruct (map_r _ container) as [per_child|] eqn:Hmap; simpl; [|done].
  intros [= <-]. apply map_r_Forall2 in Hmap.
  apply Forall_concat. induction Hmap as [|e its es itss He _ IH]; [done|].
  constructor; [by eapply element_items_shape | done].
Qed.

Lemma process_container_shape (container : list element) (location : string)
    (items : list item) :
  process_container container location = Ok items →
  Forall (located_item_shape location) items.
Proof.
  rewrite process_container_grouped.
  destruct (items_in_order _ _ container) as [in_order|] eqn:Horder; simpl; [|done].
  intros [= <-]. apply items_in_order_shape in Horder.
  unfold grouped_by_kind. apply Forall_app.
  split; apply Forall_forall; intros it [_ Hin]%list_elem_of_filter;
    by apply (proj1 (Forall_forall _ _) Horder).
Qed.

Lemma located_item_location (location : string) (it : item) :
  located_item_shape location it → it !! "location" = Some (VStr location).
Proof.
  intros [(text & _ & ->) | (data & ->)]; unfold text_item, located_table;
    by simplify_map_eq.
Qed.

Lemma body_item_not_header (it : item) : body_item_shape it → ¬ is_header it.
Proof.
  unfold is_header.
  intros [(text & _ & ->) | (data & ->)]; unfold text_item, body_table;
    by simplify_map_eq.
Qed.

(** X15. The sequence that [extract_content_from_document] returns is made
    of four runs: body items (text items with a non-empty text and location
    ["body"], table items without a location), header items and footer
    items (text items with a non-empty text, table items, each tagged with
    its location), and the footnote items; [count_headers] of the sequence
    is the number of header items. *)
Theorem extracted_item_shapes (document : document) (contents : list item) :
  extract_content_from_document document = Ok contents →
  ∃ body_items header_items footer_items notes,
    contents = body_items ++ header_items ++ footer_items ++ notes ∧
    Forall body_item_shape body_items ∧
    Forall (located_item_shape "header") header_items ∧
    Forall (located_item_shape "footer") footer_items ∧
    extract_footnotes_from_xml document = Ok notes ∧
    count_headers contents = Z.of_nat (length header_items).
Proof.
  unfold extract_content_from_document, extract_text_from_headers_and_footers.
  rewrite (for_each_concat _ _ _ _ body_element_items).
  destruct (map_r _ (body document)) as [per_child|] eqn:Hbody; simpl; [|done].
  destruct (for_each sections_body (sections document) ([], []))
    as [[hc fc]|] eqn:Hsections; simpl; [|done].
  destruct (extract_footnotes_from_xml document) as [notes|] eqn:Hnotes;
    simpl; [|done].
  intros [= <-].
  apply sections_loop in Hsections as (headers & footers & Hh & Hf & -> & ->).
  simpl.
  assert (Forall body_item_shape (concat per_child)) as Hb.
  { apply (items_in_order_shape (λ t, text_item t "body") body_table (body document)).
    unfold items_in_order. by rewrite Hbody. }
  assert (Forall (located_item_shape "header") (concat headers)) as Hhs.
  { apply Forall_concat. clear Hf. induction Hh as [|s h ss hs Hs _ IH]; [done|].
    constructor; [by eapply process_container_shape | done]. }
  assert (Forall (located_item_shape "footer") (concat footers)) as Hfs.
  { apply Forall_concat. clear Hh Hhs. induction Hf as [|s f ss fs Hs _ IH]; [done|].
    constructor; [by eapply process_container_shape | done]. }
  exists (concat per_child), (concat headers), (concat footers), notes.
  rewrite <- !app_assoc. split_and!; try done.
  rewrite !count_headers_app.
  assert (count_headers (concat per_child) = 0%Z) as ->.
  { apply count_headers_none. eapply Forall_impl; [exact Hb|].
    apply body_item_not_header. }
  assert (count_headers (concat footers) = 0%Z) as ->.
  { apply count_headers_none. eapply Forall_impl; [exact Hfs|].
    intros it Hit%located_item_location. unfold is_header. rewrite Hit. congruence. }
  assert (count_headers notes = 0%Z) as ->.
  { apply count_headers_none.
    rewrite extract_footnotes_from_xml_items in Hnotes.
    destruct (List.find _ (rels document)) as [rel|]; [|by injection Hnotes as <-].
    destruct (target_part rel) as [root|]; simpl in Hnotes; [|done].
    injection Hnotes as <-. apply Forall_fmap, Forall_forall. intros fn _. simpl.
    unfold is_header.
    destruct (footnote_item_lookup fn) as (_ & -> & _). done. }
  rewrite count_headers_all; [lia|].
  eapply Forall_impl; [exact Hhs|]. apply located_item_location.
Qed.

Lemma extracted_item_shapes_witness :
  ∃ body_items header_items footer_items notes,
    [ text_item "Body text" "body"; text_item "Title" "header";
      located_table "header" [[ [CText "Logo"] ]]; text_item "Page" "footer" ]
      = body_items ++ header_items ++ footer_items ++ notes ∧
    Forall body_item_shape body_items ∧
    Forall (located_item_shape "header") header_items ∧
    Forall (located_item_shape "footer") footer_items ∧
    extract_footnotes_from_xml header_table_first = Ok notes ∧
    count_headers
      [ text_item "Body text" "body"; text_item "Title" "header";
        located_table "header" [[ [CText "Logo"] ]]; text_item "Page" "footer" ]
      = Z.of_nat (length header_items).
Proof.
  apply (extracted_item_shapes header_table_first). reflexivity.
Defined.
